(* ===== verification/_CoqProject ===== *)
-Q . S2P
Prelude.v
Coils.v
Stepper.v
Decoder.v
Ota.v
Sketch.v
