(* ===== verification/Prelude.v ===== *)
(** * A verification development of esp32-simple-blinds

    The repository is one Arduino sketch, [src/esp32-simple-blinds.cpp],
    that turns a 28BYJ-48 stepper motor to an absolute step position
    received as a 4-byte binary WebSocket frame.  Its parts and how they
    interact:

    - the stepper driver [Simple28BYJ48] (a library of the author that is
      not under [src/]: it is modelled from the spec, section 4.1 and 4.2,
      and every definition of it is marked [spec_modelled] in the map).
      Its coil sequencer maps a phase index to a 4-bit coil pattern; its
      motor state machine keeps current and target position, phase index,
      time of the last step and the pattern on the four coil lines, and
      offers [set_target_pos] and [keep_target_pos];
    - the frame decoder [bin_to_int_le] (lines 20-24), which assembles a
      32-bit [int] from the first four bytes of the payload, the first
      byte most significant;
    - the WebSocket callback [websocket_event] (lines 26-45), which on a
      binary frame decodes the payload and calls [set_target_pos], and
      ignores every other event type;
    - the OTA (over-the-air update) callbacks registered in [setup]
      (lines 58-91), which only write to the serial port;
    - [setup] (lines 47-97): pin modes, the blocking wait for the Wi-Fi
      association, the OTA and WebSocket registration;
    - [loop] (lines 99-104): one iteration polls the OTA listener, then
      the WebSocket server (which runs [websocket_event] for each frame
      received), then advances the motor by at most one step.

    Files (in dependency order, as listed in [_CoqProject]):
    - [Prelude.v] (this file): the [result] error type and its monad
      notation in [blinds_scope], 32-bit signed and unsigned arithmetic
      ([to_int32], [u32_sub]), bytes as [Init.Byte.byte] read through
      [byte_to_Z], the lemmas on them shared by the components, the hint
      database [blinds] and the tactics of the development.
    - [Coils.v]: the coil sequencer.  [CoilSequence] is a [Class] (an
      interface) of a non-empty table of valid coil patterns; the
      half-step and full-step tables of the 28BYJ-48 are its instances.
    - [Stepper.v]: the motor state machine as a [Section] over any
      [CoilSequence] and a step interval: the state [Motor], the
      operations [set_target_pos] and [keep_target_pos], the abstract
      specification [abs_step] (move one step toward the target) with
      the refinement theorem, and the theorems on rate limiting,
      holding, redirection, phase arithmetic, convergence and 32-bit
      bounds.  It also provides the [StepperDriver] interface the sketch
      is verified against, and its instance.
    - [Decoder.v]: [bin_to_int_le] at the width of the code (C [int]
      shifts converted to 32 bits, then [|]), its equivalence with the
      two's-complement reading of the bytes most significant first, the
      encoder [int_to_bin] and both round trips, and the out-of-bounds
      read on short payloads.
    - [Ota.v]: the OTA callbacks as functions from an OTA event to the
      serial output they write; the progress callback's unsigned
      division, with its division by zero and its bound.
    - [Sketch.v]: the sketch itself, over the [StepperDriver] interface:
      the event type [WStype_t], [websocket_event], the Wi-Fi wait loop
      of [setup] with fuel, [setup] and [loop] as functions on the
      device state, and the theorems on the scheduler: a frame decoded in
      an iteration is seen by that iteration's motor advance, OTA events
      never change the motor, and a device that keeps receiving no new
      frame reaches its target.

    What the theorems show, by group:
    - coil sequencer ([Coils.v], lemmas): every pattern of each table
      energizes one or two adjacent lines of the four, and two consecutive
      phases always differ and share an energized line;
    - motor ([Stepper.v], lemmas on the driver): [keep_target_pos] refines
      [abs_step] (it stutters or moves one step toward the target); it is
      a no-op while holding or before the step interval has elapsed; a
      step changes the position by exactly one toward the target and never
      overshoots; the phase after any run is the initial phase plus the
      net steps modulo the table length; the coils are all off before the
      first step and carry the (valid) pattern of the new phase after each
      step; given a tick each step interval the target is reached after
      [|target - position|] ticks; the unsigned elapsed-time test is right
      across the wrap-around of the 32-bit microsecond clock; reachable
      states stay within [int];
    - decoder ([Decoder.v]): equivalence of the bitwise code with the
      arithmetic reference, both round trips, and the out-of-bounds read on
      short frames;
    - OTA ([Ota.v]): the progress percentage divides by zero for images
      under 100 bytes and ends at [100 + (total mod 100) / (total / 100)]
      (up to 199);
    - sketch ([Sketch.v]): the program-level properties, stated on
      [loop] and on successive idle iterations [idle_loops]: the ordering
      of [loop] (a frame is seen by the same iteration's advance, OTA events
      and other event types never move the motor), the motor lemmas above
      lifted to iterations of [loop] (refinement, rate limit, hold,
      progress, phase, redirection, convergence in real time across the
      clock wrap), the invariant of every non-faulting iteration, the
      faults of short frames and small OTA images, and the exact
      behaviour of the Wi-Fi wait.

    Bounds and fuel.  The clock is the 32-bit [micros()] counter: the
    elapsed time is computed as [u32_sub now last], and the theorems that
    relate it to real time require two consecutive ticks less than 2^32
    microseconds apart (71 minutes), which is what the wrap-around
    arithmetic needs.  The Wi-Fi wait is a [Fixpoint] on fuel counting
    the status polls; it returns as soon as the status is connected and
    the theorem gives the exact number of polls when fuel exceeds the
    index of the first connected status; with a status that never
    connects it never returns, which is the code's behaviour.

    Not modelled: the Wi-Fi, OTA and WebSocket libraries themselves (they
    are collaborators: the model takes their outputs, the events they
    deliver, as inputs), the serial port beyond the lines written, and
    the electrical behaviour of the pins.

    Plan for the following steps, in order: the pin writes of a step
    ([digitalWrite] of each coil line on [stepper_pins]) and the
    invariant that the written levels always form a valid pattern; the
    unbounded [loop] as a step relation on devices, with reachability of
    the invariant by rule induction over whole runs; the connection events
    of the WebSocket server as part of the event model; and a decoder
    that checks the frame length, as the spec requires, proved to refine
    [bin_to_int_le] on 4-byte frames and to reject every other frame. *)

From Stdlib Require Import ZArith Lia List String.
From Stdlib Require Strings.Byte.
Import ListNotations.

(** ** Results: a computation that may hit undefined behaviour *)

Inductive result (A E : Type) : Type :=
| Ok (a : A)
| Err (e : E).
Arguments Ok {A E} a.
Arguments Err {A E} e.

Definition result_bind {A B E} (r : result A E) (k : A -> result B E) : result B E :=
  match r with
  | Ok a => k a
  | Err e => Err e
  end.

Declare Scope blinds_scope.
Delimit Scope blinds_scope with blinds.
Notation "x <- c ;; k" := (result_bind c (fun x => k))
  (at level 61, c at next level, right associativity) : blinds_scope.

Lemma result_bind_ok {A B E} (r : result A E) (k : A -> result B E) b :
  result_bind r k = Ok b <-> exists a, r = Ok a /\ k a = Ok b.
Proof.
  destruct r as [a | e]; simpl; split.
  - eauto.
  - intros (a' & Ha & Hk). congruence.
  - discriminate.
  - intros (a & Ha & _). discriminate.
Qed.

(** The undefined behaviours the sketch can reach: a read past the end of
    a payload buffer, and an integer division by zero. *)
Inductive fault : Type :=
| OutOfBoundsRead (index : nat)
| DivisionByZero.

(** ** 32-bit integers *)

Open Scope Z_scope.

(** The range of a C [int] on the ESP32 (32 bits, two's complement). *)
Definition int32_min : Z := - 2 ^ 31.
Definition int32_max : Z := 2 ^ 31 - 1.
Definition in_int32 (z : Z) : bool := (int32_min <=? z) && (z <=? int32_max).

(** Conversion of an integer to [int]: the value modulo 2^32, read in two's
    complement (what GCC does for an out-of-range conversion, and what C++20
    prescribes for the result of [<<]). *)
Definition to_int32 (z : Z) : Z := (z + 2 ^ 31) mod 2 ^ 32 - 2 ^ 31.

(** Unsigned 32-bit subtraction, as [unsigned long] computes [a - b]. *)
Definition u32_sub (a b : Z) : Z := (a - b) mod 2 ^ 32.

Lemma in_int32_iff z : in_int32 z = true <-> - 2 ^ 31 <= z < 2 ^ 31.
Proof.
  unfold in_int32, int32_min, int32_max.
  rewrite Bool.andb_true_iff, !Z.leb_le. lia.
Qed.

Lemma to_int32_range z : - 2 ^ 31 <= to_int32 z < 2 ^ 31.
Proof. unfold to_int32. pose proof (Z.mod_pos_bound (z + 2 ^ 31) (2 ^ 32)). lia. Qed.

Lemma to_int32_in_int32 z : in_int32 (to_int32 z) = true.
Proof. apply in_int32_iff, to_int32_range. Qed.

Lemma to_int32_id z : - 2 ^ 31 <= z < 2 ^ 31 -> to_int32 z = z.
Proof. intros H. unfold to_int32. rewrite Z.mod_small; lia. Qed.

(** Adding a small non-negative number to an [int] that is a multiple of
    2^k commutes with the conversion, as long as no carry leaves bit 31. *)
Lemma to_int32_add_low z r k :
  0 <= k <= 31 -> z mod 2 ^ k = 0 -> 0 <= r < 2 ^ k ->
  to_int32 z + r = to_int32 (z + r).
Proof.
  intros Hk Hz Hr. unfold to_int32.
  assert (HK : 0 < 2 ^ k) by (apply Z.pow_pos_nonneg; lia).
  assert (H32 : 2 ^ 32 = 2 ^ (32 - k) * 2 ^ k) by (rewrite <- Z.pow_add_r; f_equal; lia).
  assert (H31 : 2 ^ 31 = 2 ^ (31 - k) * 2 ^ k) by (rewrite <- Z.pow_add_r; f_equal; lia).
  set (m := (z + 2 ^ 31) mod 2 ^ 32).
  assert (Hm : m mod 2 ^ k = 0).
  { unfold m. rewrite Z.mod_mod_divide by (exists (2 ^ (32 - k)); exact H32).
    rewrite Zplus_mod, Hz, H31, Z.mod_mul by lia. reflexivity. }
  assert (Hmr : 0 <= m < 2 ^ 32) by (apply Z.mod_pos_bound; lia).
  assert (m + r < 2 ^ 32).
  { pose proof (Z.div_mod m (2 ^ k) ltac:(lia)) as Hd. rewrite Hm, Z.add_0_r in Hd.
    rewrite H32 in *. remember (2 ^ k) as K. remember (2 ^ (32 - k)) as Q.
    assert (m / K < Q).
    { apply (Z.mul_lt_mono_pos_l K); [lia|]. rewrite <- Hd. lia. }
    assert (K * (m / K) <= K * (Q - 1)) by (apply Z.mul_le_mono_nonneg_l; lia).
    lia. }
  replace (z + r + 2 ^ 31) with ((z + 2 ^ 31) + r) by ring.
  rewrite <- Zplus_mod_idemp_l. fold m. rewrite Z.mod_small by lia. ring.
Qed.

(** ** Bit operations *)

(** Two integers whose set bits are disjoint: one a multiple of 2^k, the
    other a non-negative number below 2^k.  Their [|] is their sum. *)
Lemma land_low_high a b k :
  0 <= k -> a mod 2 ^ k = 0 -> 0 <= b < 2 ^ k -> Z.land a b = 0.
Proof.
  intros Hk Ha Hb. apply Z.bits_inj'. intros i Hi.
  rewrite Z.land_spec, Z.bits_0.
  destruct (Z.lt_ge_cases i k) as [Hlt | Hge].
  - rewrite <- (Z.mod_pow2_bits_low a k i Hlt), Ha, Z.bits_0. reflexivity.
  - rewrite <- (Z.mod_small b (2 ^ k)) by lia.
    rewrite Z.mod_pow2_bits_high by lia. apply Bool.andb_false_r.
Qed.

Lemma lor_low_high a b k :
  0 <= k -> a mod 2 ^ k = 0 -> 0 <= b < 2 ^ k -> Z.lor a b = a + b.
Proof.
  intros Hk Ha Hb. rewrite <- Z.add_lor_land, (land_low_high a b k); lia.
Qed.

(** The conversion does not change the low bits. *)
Lemma to_int32_mod_pow2 z k : 0 <= k <= 32 -> to_int32 z mod 2 ^ k = z mod 2 ^ k.
Proof.
  intros Hk. unfold to_int32.
  assert (H32 : 2 ^ 32 = 2 ^ (32 - k) * 2 ^ k) by (rewrite <- Z.pow_add_r; f_equal; lia).
  rewrite (Z.mod_eq (z + 2 ^ 31) (2 ^ 32)) by lia.
  replace (z + 2 ^ 31 - 2 ^ 32 * ((z + 2 ^ 31) / 2 ^ 32) - 2 ^ 31)
    with (z + (- (2 ^ (32 - k) * ((z + 2 ^ 31) / 2 ^ 32))) * 2 ^ k) by (rewrite H32; ring).
  apply Z.mod_add. apply Z.pow_nonzero; lia.
Qed.

(** [|] of an [int] whose low [k] bits are zero with a value of [k] bits
    is the [int] conversion of their sum. *)
Lemma lor_to_int32_low z r k :
  0 <= k <= 31 -> z mod 2 ^ k = 0 -> 0 <= r < 2 ^ k ->
  Z.lor (to_int32 z) r = to_int32 (z + r).
Proof.
  intros Hk Hz Hr. rewrite (lor_low_high (to_int32 z) r k); [| lia | | exact Hr].
  - apply (to_int32_add_low z r k); assumption.
  - rewrite to_int32_mod_pow2 by lia. exact Hz.
Qed.

(** Unsigned subtraction of two clock readings gives the real elapsed time
    whenever it is less than 2^32, across a wrap-around of the counter. *)
Lemma u32_sub_wrap t1 t2 :
  0 <= t2 - t1 < 2 ^ 32 -> u32_sub (t2 mod 2 ^ 32) (t1 mod 2 ^ 32) = t2 - t1.
Proof.
  intros H. unfold u32_sub.
  rewrite Zminus_mod_idemp_l, Zminus_mod_idemp_r. apply Z.mod_small. exact H.
Qed.

Lemma u32_sub_range a b : 0 <= u32_sub a b < 2 ^ 32.
Proof. apply Z.mod_pos_bound. lia. Qed.

(** ** Bytes *)

(** A [uint8_t] is an [Init.Byte.byte]; its value is read as an integer. *)
Definition byte_to_Z (b : Byte.byte) : Z := Z.of_N (Byte.to_N b).

(** The byte holding the low 8 bits of an integer ([(uint8_t) z]). *)
Definition byte_of_Z (z : Z) : Byte.byte :=
  match Byte.of_N (Z.to_N (z mod 256)) with
  | Some b => b
  | None => Byte.x00
  end.

Lemma byte_to_Z_range b : 0 <= byte_to_Z b < 256.
Proof.
  unfold byte_to_Z. pose proof (Byte.to_N_bounded b). lia.
Qed.

Lemma byte_to_Z_of_Z z : byte_to_Z (byte_of_Z z) = z mod 256.
Proof.
  unfold byte_of_Z, byte_to_Z.
  pose proof (Z.mod_pos_bound z 256 eq_refl).
  destruct (Byte.of_N (Z.to_N (z mod 256))) as [b|] eqn:E.
  - apply Byte.to_of_N in E. rewrite E. apply Z2N.id. lia.
  - exfalso. apply Byte.of_N_None_iff in E. lia.
Qed.

Lemma byte_of_Z_to_Z b : byte_of_Z (byte_to_Z b) = b.
Proof.
  unfold byte_of_Z, byte_to_Z.
  pose proof (Byte.to_N_bounded b).
  rewrite Z.mod_small by lia. rewrite N2Z.id. rewrite Byte.of_to_N. reflexivity.
Qed.

Lemma byte_to_Z_inj b1 b2 : byte_to_Z b1 = byte_to_Z b2 -> b1 = b2.
Proof.
  intros H. rewrite <- (byte_of_Z_to_Z b1), <- (byte_of_Z_to_Z b2), H. reflexivity.
Qed.

(** ** Automation *)

Create HintDb blinds.
Create Rewrite HintDb blinds_rw.
#[export] Hint Resolve to_int32_range to_int32_in_int32 u32_sub_range byte_to_Z_range : blinds.
#[export] Hint Rewrite byte_to_Z_of_Z byte_of_Z_to_Z : blinds_rw.

(** Put the range of every byte read in the goal into the context. *)
Ltac bytes_bounded :=
  repeat match goal with
         | |- context [byte_to_Z ?b] =>
             lazymatch goal with
             | _ : 0 <= byte_to_Z b < 256 |- _ => fail
             | _ => pose proof (byte_to_Z_range b)
             end
         end.

(** Turn a boolean test of the code into the arithmetic fact it decides. *)
Ltac zbool :=
  repeat match goal with
         | H : (_ =? _) = true |- _ => apply Z.eqb_eq in H
         | H : (_ =? _) = false |- _ => apply Z.eqb_neq in H
         | H : (_ <? _) = true |- _ => apply Z.ltb_lt in H
         | H : (_ <? _) = false |- _ => apply Z.ltb_ge in H
         | H : (_ <=? _) = true |- _ => apply Z.leb_le in H
         | H : (_ <=? _) = false |- _ => apply Z.leb_gt in H
         end.
