(* ===== verification/Coils.v ===== *)
(** * The coil sequencer of the stepper driver

    The 28BYJ-48 has four coil lines, driven through the pins [in1] to
    [in4] of [Simple28BYJ48] (12, 14, 27 and 26 in the sketch).  A coil
    pattern is a 4-bit number whose bit [4 - k] energizes line [k], so
    that the pattern [1000] (8) energizes [in1] only.  The sequencer is a
    fixed table of patterns indexed by the phase (spec section 4.1).

    [CoilSequence] is the interface the motor state machine is written
    against: a non-empty table of valid patterns.  The half-step (eight
    phases) and the two-phase full-step (four phases) tables of the
    28BYJ-48 are its two implementations; both are proved smooth: two
    consecutive phases, in either direction and across the wrap of the
    table, are distinct and share an energized line. *)

From Stdlib Require Import ZArith Lia List.
From S2P Require Import Prelude.
Import ListNotations.
Open Scope Z_scope.
Open Scope bool_scope.

(** ** Patterns *)

(** Line [k] (1 to 4) of pattern [p] is energized. *)
Definition coil_on (p line : Z) : bool := Z.testbit p (4 - line).

Definition coil_lines : list Z := [1; 2; 3; 4].

Definition energized_lines (p : Z) : list Z := filter (coil_on p) coil_lines.

(** Two lines are adjacent on the stator: 1-2, 2-3, 3-4 and 4-1. *)
Definition adjacent_lines (a b : Z) : bool := (b =? a + 1) || ((a =? 1) && (b =? 4)).

(** A pattern of the table energizes exactly one line, or two adjacent
    lines (spec 4.1), and has no bit beyond the four lines. *)
Definition valid_pattern (p : Z) : bool :=
  (0 <=? p) && (p <? 16) &&
  match energized_lines p with
  | [_] => true
  | [a; b] => adjacent_lines a b
  | _ => false
  end.

(** Two patterns share an energized line. *)
Definition shares_line (p q : Z) : bool :=
  existsb (fun l => coil_on p l && coil_on q l) coil_lines.

(** A move from pattern [p] to pattern [q] turns the rotor by one phase
    without losing its hold: the patterns differ and overlap. *)
Definition smooth_move (p q : Z) : bool := negb (p =? q) && shares_line p q.

(** ** The interface *)

Class CoilSequence := {
  coil_table : list Z;
  coil_table_nonempty : coil_table <> [];
  coil_table_valid : forallb valid_pattern coil_table = true
}.

Section Sequencer.
Context {CS : CoilSequence}.

(** [N], the number of phases. *)
Definition n_phases : Z := Z.of_nat (length coil_table).

(** [pattern(phase_index)]: the table entry; total, with 0 (all coils
    off) outside the table. *)
Definition pattern (phase : Z) : Z := nth (Z.to_nat phase) coil_table 0.

(** The phase indices [0 .. N-1]. *)
Definition phases : list Z := map Z.of_nat (seq 0 (length coil_table)).

(** The table is smooth in both directions, across its wrap-around. *)
Definition smooth_table : bool :=
  forallb (fun i => smooth_move (pattern i) (pattern ((i + 1) mod n_phases))
                    && smooth_move (pattern i) (pattern ((i - 1) mod n_phases)))
          phases.

Lemma n_phases_pos : 0 < n_phases.
Proof.
  unfold n_phases. pose proof coil_table_nonempty.
  destruct coil_table; [congruence | simpl; lia].
Qed.

Lemma phase_mod_range z : 0 <= z mod n_phases < n_phases.
Proof. apply Z.mod_pos_bound, n_phases_pos. Qed.

(** A boolean check over all the phases holds at each phase. *)
Lemma forallb_phases (P : Z -> bool) :
  forallb P phases = true -> forall i, 0 <= i < n_phases -> P i = true.
Proof.
  unfold phases, n_phases. intros H i Hi.
  rewrite forallb_forall in H. apply H, in_map_iff.
  exists (Z.to_nat i). split; [lia|]. apply in_seq. lia.
Qed.

Lemma pattern_in_table i : 0 <= i < n_phases -> In (pattern i) coil_table.
Proof. unfold pattern, n_phases. intros H. apply nth_In. lia. Qed.

Lemma pattern_valid i : 0 <= i < n_phases -> valid_pattern (pattern i) = true.
Proof.
  intros H. pose proof coil_table_valid as Hv. rewrite forallb_forall in Hv.
  apply Hv, pattern_in_table, H.
Qed.

Lemma valid_pattern_range p : valid_pattern p = true -> 0 <= p < 16.
Proof.
  unfold valid_pattern. intros H.
  apply andb_prop in H as [H _]. apply andb_prop in H as [H1 H2]. zbool. lia.
Qed.

Lemma pattern_range i : 0 <= i < n_phases -> 0 <= pattern i < 16.
Proof. intros H. apply valid_pattern_range, pattern_valid, H. Qed.

Lemma smooth_table_spec :
  smooth_table = true -> forall i, 0 <= i < n_phases ->
  smooth_move (pattern i) (pattern ((i + 1) mod n_phases)) = true /\
  smooth_move (pattern i) (pattern ((i - 1) mod n_phases)) = true.
Proof.
  intros H i Hi. apply andb_prop. exact (forallb_phases _ H i Hi).
Qed.
End Sequencer.

#[export] Hint Resolve n_phases_pos phase_mod_range pattern_range : blinds.

(** ** The two tables of the 28BYJ-48 *)

(** Half-step: one line, two lines, one line, ...: eight phases. *)
Definition half_step_table : list Z := [8; 12; 4; 6; 2; 3; 1; 9].

(** Two-phase full step: always two adjacent lines: four phases. *)
Definition full_step_table : list Z := [12; 6; 3; 9].

Definition half_step : CoilSequence := {|
  coil_table := half_step_table;
  coil_table_nonempty := ltac:(discriminate);
  coil_table_valid := eq_refl
|}.

Definition full_step : CoilSequence := {|
  coil_table := full_step_table;
  coil_table_nonempty := ltac:(discriminate);
  coil_table_valid := eq_refl
|}.

(** ** Properties of the tables *)

(** Every phase of a sequence drives a valid pattern, and a step in
    either direction is a smooth move when the table is smooth. *)
Lemma sequence_phase_ok {CS : CoilSequence} i :
  smooth_table = true -> 0 <= i < n_phases ->
  valid_pattern (pattern i) = true /\
  smooth_move (pattern i) (pattern ((i + 1) mod n_phases)) = true /\
  smooth_move (pattern i) (pattern ((i - 1) mod n_phases)) = true.
Proof.
  intros Hs Hi. split; [apply pattern_valid, Hi|]. apply smooth_table_spec; assumption.
Qed.

(** In the half-step sequence, every phase energizes one line or two
    adjacent lines, and the phases before and after it (with wrap-around)
    differ from it and share an energized line with it. *)
Lemma half_step_phase_ok i :
  0 <= i < @n_phases half_step ->
  valid_pattern (@pattern half_step i) = true /\
  smooth_move (@pattern half_step i) (@pattern half_step ((i + 1) mod @n_phases half_step)) = true /\
  smooth_move (@pattern half_step i) (@pattern half_step ((i - 1) mod @n_phases half_step)) = true.
Proof. apply sequence_phase_ok. vm_compute. reflexivity. Qed.

Lemma half_step_phase_ok_at_7 :
  (0 <= 7 < @n_phases half_step) /\
  valid_pattern (@pattern half_step 7) = true /\
  smooth_move (@pattern half_step 7) (@pattern half_step ((7 + 1) mod @n_phases half_step)) = true /\
  smooth_move (@pattern half_step 7) (@pattern half_step ((7 - 1) mod @n_phases half_step)) = true.
Proof.
  assert (H : 0 <= 7 < @n_phases half_step) by (cbn; lia).
  split; [exact H | exact (half_step_phase_ok 7 H)].
Defined.

(** In the two-phase full-step sequence, every phase energizes two
    adjacent lines, and the phases before and after it (with wrap-around)
    differ from it and share an energized line with it. *)
Lemma full_step_phase_ok i :
  0 <= i < @n_phases full_step ->
  valid_pattern (@pattern full_step i) = true /\
  smooth_move (@pattern full_step i) (@pattern full_step ((i + 1) mod @n_phases full_step)) = true /\
  smooth_move (@pattern full_step i) (@pattern full_step ((i - 1) mod @n_phases full_step)) = true.
Proof. apply sequence_phase_ok. vm_compute. reflexivity. Qed.

Lemma full_step_phase_ok_at_0 :
  (0 <= 0 < @n_phases full_step) /\
  valid_pattern (@pattern full_step 0) = true /\
  smooth_move (@pattern full_step 0) (@pattern full_step ((0 + 1) mod @n_phases full_step)) = true /\
  smooth_move (@pattern full_step 0) (@pattern full_step ((0 - 1) mod @n_phases full_step)) = true.
Proof.
  assert (H : 0 <= 0 < @n_phases full_step) by (cbn; lia).
  split; [exact H | exact (full_step_phase_ok 0 H)].
Defined.

(** A wave-drive table (one line at a time) is valid but not smooth: the
    check rejects a table whose consecutive phases share no line. *)
Example wave_drive_not_smooth :
  @smooth_table {| coil_table := [8; 4; 2; 1];
                   coil_table_nonempty := ltac:(discriminate);
                   coil_table_valid := eq_refl |} = false.
Proof. vm_compute. reflexivity. Qed.
