(* ===== verification/Stepper.v ===== *)
(** * The motor state machine of [Simple28BYJ48]

    The driver library is not under [src/]; the sketch uses it through
    [Simple28BYJ48 stepper(12, 14, 27, 26)] (line 17),
    [stepper.set_target_pos(...)] (line 30) and
    [stepper.keep_target_pos()] (line 103).  This file models it from the
    spec (sections 3 and 4.2), as a [Section] over a coil sequence
    ([Coils.CoilSequence]) and the step interval:
    - [Motor] is the driver object: current and target position, phase
      index, time of the last step, and the pattern on the coil lines;
    - [set_target_pos] overwrites the target;
    - [keep_target_pos now] is one call of [keep_target_pos()], [now]
      being the 32-bit [micros()] reading it makes.

    The abstract specification is [abs_step] on [(position, target)]
    pairs: the position moves one step toward the target.  The theorems
    show that [keep_target_pos] refines it, with the rate limit, the
    hold state, the phase arithmetic, the convergence with its exact
    number of ticks, and the 32-bit bounds as an invariant of every
    reachable state.  [StepperDriver] is the interface the sketch is
    verified against; [motor_driver] implements it. *)

From Stdlib Require Import ZArith Lia List.
From S2P Require Import Prelude Coils.
Import ListNotations.
Open Scope Z_scope.
Open Scope bool_scope.

(** ** The abstract specification *)

(** What the driver promises, on the pair (position, target): a step
    moves the position by one toward the target. *)
Inductive abs_step : Z * Z -> Z * Z -> Prop :=
| abs_step_up p t : p < t -> abs_step (p, t) (p + 1, t)
| abs_step_down p t : t < p -> abs_step (p, t) (p - 1, t).

(** An operation of the driver either stutters or takes one abstract step. *)
Definition abs_step_or_stutter (a a' : Z * Z) : Prop := a' = a \/ abs_step a a'.

Lemma abs_step_closer a a' :
  abs_step a a' -> Z.abs (snd a' - fst a') = Z.abs (snd a - fst a) - 1.
Proof. intros []; simpl; lia. Qed.

(** ** The driver *)

Record Motor := mkMotor {
  current_position : Z;
  target_position : Z;
  phase_index : Z;
  last_step_time : Z;
  coils : Z
}.

Section Driver.
Context {CS : CoilSequence}.

(** The minimum time between two phase advances, in microseconds. *)
Variable step_interval : Z.

(** The driver as constructed: at the reference pose, phase 0, coil lines
    off (the sketch's [pinMode] leaves the outputs low). *)
Definition init_motor : Motor := mkMotor 0 0 0 0 0.

(** [set_target_pos(new_target)]: only the target changes. *)
Definition set_target_pos (new_target : Z) (m : Motor) : Motor :=
  {| current_position := current_position m;
     target_position := new_target;
     phase_index := phase_index m;
     last_step_time := last_step_time m;
     coils := coils m |}.

(** [sign(target - current)], for a motor that is not at its target. *)
Definition step_direction (m : Motor) : Z :=
  if current_position m <? target_position m then 1 else -1.

(** The step itself: phase and position move by the direction, the time
    is recorded and the new phase's pattern is driven on the coils. *)
Definition advance (now : Z) (m : Motor) : Motor :=
  let dir := step_direction m in
  let ph := (phase_index m + dir) mod n_phases in
  {| current_position := current_position m + dir;
     target_position := target_position m;
     phase_index := ph;
     last_step_time := now;
     coils := pattern ph |}.

(** [keep_target_pos()] with [micros()] = [now]: hold at the target, wait
    until the interval has elapsed (unsigned 32-bit difference), else step. *)
Definition keep_target_pos (now : Z) (m : Motor) : Motor :=
  if current_position m =? target_position m then m
  else if u32_sub now (last_step_time m) <? step_interval then m
  else advance now m.

(** A sequence of [keep_target_pos] calls at the given clock readings. *)
Fixpoint run (ticks : list Z) (m : Motor) : Motor :=
  match ticks with
  | [] => m
  | t :: ts => run ts (keep_target_pos t m)
  end.

(** Every tick comes at least one interval after the previous one. *)
Fixpoint due_from (last : Z) (ticks : list Z) : bool :=
  match ticks with
  | [] => true
  | t :: ts => (step_interval <=? u32_sub t last) && due_from t ts
  end.

Definition abs_motor (m : Motor) : Z * Z := (current_position m, target_position m).

Definition distance (m : Motor) : Z := Z.abs (target_position m - current_position m).

(** *** Reachable states *)

(** The states the sketch can bring the driver to: the targets it sets
    are [int] values (they come out of [bin_to_int_le]). *)
Inductive reachable : Motor -> Prop :=
| reach_init : reachable init_motor
| reach_set m t : reachable m -> in_int32 t = true -> reachable (set_target_pos t m)
| reach_keep m now : reachable m -> reachable (keep_target_pos now m).

(** The invariant: positions within [int], the phase within the table,
    and the coils showing the pattern of the phase, or off before the
    first step. *)
Definition motor_inv (m : Motor) : Prop :=
  in_int32 (current_position m) = true /\ in_int32 (target_position m) = true /\
  0 <= phase_index m < n_phases /\
  (coils m = pattern (phase_index m) \/ coils m = 0).

(** ** Lemmas on one call *)

Lemma keep_at_target now m :
  current_position m = target_position m -> keep_target_pos now m = m.
Proof. intros H. unfold keep_target_pos. rewrite H, Z.eqb_refl. reflexivity. Qed.

Lemma keep_not_due now m :
  u32_sub now (last_step_time m) < step_interval -> keep_target_pos now m = m.
Proof.
  intros H. unfold keep_target_pos.
  destruct (_ =? _); [reflexivity|]. apply Z.ltb_lt in H. rewrite H. reflexivity.
Qed.

Lemma keep_due now m :
  current_position m <> target_position m -> step_interval <= u32_sub now (last_step_time m) ->
  keep_target_pos now m = advance now m.
Proof.
  intros Hne Hdue. unfold keep_target_pos.
  apply Z.eqb_neq in Hne. apply Z.ltb_ge in Hdue. rewrite Hne, Hdue. reflexivity.
Qed.

Lemma advance_step now m :
  current_position m <> target_position m -> abs_step (abs_motor m) (abs_motor (advance now m)).
Proof.
  intros Hne. unfold abs_motor, advance, step_direction; simpl.
  destruct (Z.ltb_spec (current_position m) (target_position m)).
  - now constructor.
  - replace (current_position m + -1) with (current_position m - 1) by lia.
    constructor. lia.
Qed.

(** Every call either leaves the motor as it is or advances it. *)
Lemma keep_cases now m :
  keep_target_pos now m = m \/
  (current_position m <> target_position m /\ step_interval <= u32_sub now (last_step_time m) /\
   keep_target_pos now m = advance now m).
Proof.
  destruct (Z.eq_dec (current_position m) (target_position m)) as [E|E].
  - left. apply keep_at_target, E.
  - destruct (Z.lt_ge_cases (u32_sub now (last_step_time m)) step_interval).
    + left. apply keep_not_due. assumption.
    + right. repeat split; auto. apply keep_due; assumption.
Qed.

Lemma keep_target_position now m :
  target_position (keep_target_pos now m) = target_position m.
Proof. destruct (keep_cases now m) as [-> | (_ & _ & ->)]; reflexivity. Qed.

Lemma advance_phase now m :
  phase_index (advance now m) =
  (phase_index m + (current_position (advance now m) - current_position m)) mod n_phases.
Proof. unfold advance; simpl. f_equal. lia. Qed.
End Driver.

#[export] Hint Resolve keep_at_target keep_not_due keep_target_position : blinds.

(** ** Properties of the driver *)

Section Properties.
Context {CS : CoilSequence}.
Variable step_interval : Z.

(** [keep_target_pos] refines the abstract specification: a call
    takes one abstract step toward the target, recording the time, exactly
    when the motor is off target and the interval has elapsed, and
    otherwise leaves the whole motor state unchanged. *)
Lemma keep_target_pos_refines now m :
  (current_position m <> target_position m /\ step_interval <= u32_sub now (last_step_time m) ->
   abs_step (abs_motor m) (abs_motor (keep_target_pos step_interval now m)) /\
   last_step_time (keep_target_pos step_interval now m) = now) /\
  (current_position m = target_position m \/ u32_sub now (last_step_time m) < step_interval ->
   keep_target_pos step_interval now m = m).
Proof.
  split.
  - intros [Hne Hdue]. rewrite keep_due by assumption.
    split; [apply advance_step, Hne | reflexivity].
  - intros [H | H]; auto with blinds.
Qed.

(** Holding: once at the target, any number of calls change nothing. *)
Lemma run_at_target ticks m :
  current_position m = target_position m -> run step_interval ticks m = m.
Proof.
  revert m. induction ticks as [|t ts IH]; intros m H; simpl; [reflexivity|].
  rewrite keep_at_target by exact H. apply IH, H.
Qed.

Lemma advance_distance now m :
  current_position m <> target_position m ->
  distance (advance now m) = distance m - 1.
Proof.
  intros Hne. pose proof (abs_step_closer _ _ (advance_step now m Hne)) as H.
  exact H.
Qed.

(** One call keeps the phase equal to the initial phase plus the net
    number of steps, modulo the table length. *)
Lemma keep_phase now m :
  0 <= phase_index m < n_phases ->
  phase_index (keep_target_pos step_interval now m) =
  (phase_index m + (current_position (keep_target_pos step_interval now m) - current_position m))
    mod n_phases.
Proof.
  intros Hph. destruct (keep_cases step_interval now m) as [-> | (_ & _ & ->)].
  - rewrite Z.sub_diag, Z.add_0_r, Z.mod_small; auto.
  - apply advance_phase.
Qed.

(** The idempotent hold state: once the position equals the target,
    any sequence of [keep_target_pos] calls, at any times, leaves
    position, phase, coil output and every other field unchanged. *)
Lemma keep_target_pos_hold ticks m :
  current_position m = target_position m ->
  run step_interval ticks m = m /\ keep_target_pos step_interval (last_step_time m) m = m.
Proof. intros H. split; [apply run_at_target | apply keep_at_target]; exact H. Qed.

(** The rate limiter: a call less than one interval after the last
    step (in unsigned 32-bit microseconds) changes neither position,
    phase nor coil output, whatever the target. *)
Lemma keep_target_pos_rate_limited now m :
  u32_sub now (last_step_time m) < step_interval ->
  current_position (keep_target_pos step_interval now m) = current_position m /\
  phase_index (keep_target_pos step_interval now m) = phase_index m /\
  coils (keep_target_pos step_interval now m) = coils m.
Proof. intros H. rewrite keep_not_due by exact H. auto. Qed.

(** The phase after any sequence of calls is the initial phase plus
    the net number of steps taken, modulo the number of phases, for
    moves in both directions. *)
Lemma run_phase ticks m :
  0 <= phase_index m < n_phases ->
  phase_index (run step_interval ticks m) =
  (phase_index m + (current_position (run step_interval ticks m) - current_position m))
    mod n_phases.
Proof.
  revert m. induction ticks as [|t ts IH]; intros m Hph; simpl.
  - rewrite Z.sub_diag, Z.add_0_r, Z.mod_small; auto.
  - set (m1 := keep_target_pos step_interval t m).
    assert (H1 : phase_index m1 =
                 (phase_index m + (current_position m1 - current_position m)) mod n_phases)
      by apply keep_phase, Hph.
    rewrite IH by (rewrite H1; apply phase_mod_range).
    rewrite H1, Zplus_mod_idemp_l. f_equal. lia.
Qed.

(** Progress without overshoot: while the number of due ticks does
    not exceed the distance to the target, each one moves the position
    exactly one step closer, and the target is kept. *)
Lemma run_progress ticks m :
  due_from step_interval (last_step_time m) ticks = true ->
  Z.of_nat (length ticks) <= distance m ->
  distance (run step_interval ticks m) = distance m - Z.of_nat (length ticks) /\
  target_position (run step_interval ticks m) = target_position m.
Proof.
  revert m. induction ticks as [|t ts IH]; intros m Hdue Hlen; simpl in *; [lia|].
  apply andb_prop in Hdue as [Ht Hts]. apply Z.leb_le in Ht.
  assert (Hne : current_position m <> target_position m) by (unfold distance in Hlen; lia).
  rewrite keep_due by assumption.
  destruct (IH (advance t m)) as [Hd Ht']; [exact Hts | rewrite advance_distance; lia |].
  rewrite Hd, advance_distance by exact Hne. split; [lia | exact Ht'].
Qed.

(** Convergence: given at least [|target - position|] ticks, each one
    step interval after the previous, the position ends at the target. *)
Lemma run_converges ticks m :
  due_from step_interval (last_step_time m) ticks = true ->
  distance m <= Z.of_nat (length ticks) ->
  current_position (run step_interval ticks m) = target_position m.
Proof.
  revert m. induction ticks as [|t ts IH]; intros m Hdue Hlen; simpl in *.
  - unfold distance in Hlen. lia.
  - destruct (Z.eq_dec (current_position m) (target_position m)) as [E | Hne].
    + rewrite keep_at_target, run_at_target; assumption.
    + apply andb_prop in Hdue as [Ht Hts]. apply Z.leb_le in Ht.
      rewrite keep_due by assumption.
      rewrite IH; [reflexivity | exact Hts | rewrite advance_distance; lia].
Qed.

(** Redirection: setting a new target in the middle of a move sends
    the next due step toward the new target, without first reaching the
    old one. *)
Lemma set_target_redirects t now m :
  current_position m <> t -> step_interval <= u32_sub now (last_step_time m) ->
  target_position (keep_target_pos step_interval now (set_target_pos t m)) = t /\
  current_position (keep_target_pos step_interval now (set_target_pos t m)) =
  current_position m + Z.sgn (t - current_position m).
Proof.
  intros Hne Hdue. rewrite keep_due by assumption. unfold advance, step_direction; simpl.
  split; [reflexivity|].
  destruct (Z.ltb_spec (current_position m) t).
  - rewrite Z.sgn_pos by lia. reflexivity.
  - rewrite Z.sgn_neg by lia. reflexivity.
Qed.

(** A step stays between the position and the target. *)
Lemma advance_between now m :
  current_position m <> target_position m ->
  Z.min (current_position m) (target_position m) <= current_position (advance now m)
    <= Z.max (current_position m) (target_position m).
Proof.
  intros Hne. unfold advance, step_direction; simpl.
  destruct (Z.ltb_spec (current_position m) (target_position m)); lia.
Qed.

Lemma init_motor_inv : motor_inv init_motor.
Proof.
  unfold motor_inv, init_motor; simpl. pose proof n_phases_pos. auto with zarith.
Qed.

Lemma keep_motor_inv now m : motor_inv m -> motor_inv (keep_target_pos step_interval now m).
Proof.
  intros (Hc & Ht & Hph & Hco).
  destruct (keep_cases step_interval now m) as [-> | (Hne & _ & ->)];
    [exact (conj Hc (conj Ht (conj Hph Hco)))|].
  pose proof (advance_between now m Hne) as Hb.
  unfold motor_inv, advance in *; simpl in *. rewrite !in_int32_iff in *.
  split; [lia|]. split; [lia|]. split; [apply phase_mod_range | left; reflexivity].
Qed.

(** The invariant of every state the sketch can reach: position and
    target stay within [int] (so [current_position += direction] never
    overflows), the phase index stays in [0, N), and the coil lines show
    the pattern of the phase, or are all off before the first step. *)
Lemma motor_inv_of_reachable m : reachable step_interval m -> motor_inv m.
Proof.
  induction 1 as [| m t _ IH Ht | m now _ IH].
  - apply init_motor_inv.
  - destruct IH as (Hc & _ & Hph & Hco). exact (conj Hc (conj Ht (conj Hph Hco))).
  - apply keep_motor_inv, IH.
Qed.

(** Ticks at real times (microseconds since boot, not wrapped), each at
    least one interval and less than 2^32 microseconds after the previous. *)
Fixpoint spaced (last : Z) (ticks : list Z) : bool :=
  match ticks with
  | [] => true
  | t :: ts => (step_interval <=? t - last) && (t - last <? 2 ^ 32) && spaced t ts
  end.

(** The elapsed-time test is right across the wrap-around of the
    32-bit [micros()] counter: ticks spaced by at least an interval in real
    time are all due when the driver only sees their readings modulo 2^32. *)
Lemma due_from_real_time last ticks :
  0 <= step_interval -> spaced last ticks = true ->
  due_from step_interval (last mod 2 ^ 32) (map (fun t => t mod 2 ^ 32) ticks) = true.
Proof.
  intros Hpos. revert last. induction ticks as [|t ts IH]; intros last H; simpl in *;
    [reflexivity|].
  apply andb_prop in H as [H Hts]. apply andb_prop in H as [H1 H2]. zbool.
  rewrite u32_sub_wrap by lia. apply andb_true_intro. split.
  - apply Z.leb_le. lia.
  - apply IH, Hts.
Qed.

End Properties.


(** ** The interface the sketch is verified against *)

(** What the sketch needs of a stepper driver: [set_target_pos] sets the
    target and does not move; [keep_target_pos] keeps the target and
    refines the abstract specification. *)
Class StepperDriver (S : Type) := {
  drv_set_target : Z -> S -> S;
  drv_keep : Z -> S -> S;
  drv_position : S -> Z;
  drv_target : S -> Z;
  drv_set_target_target t s : drv_target (drv_set_target t s) = t;
  drv_set_target_position t s : drv_position (drv_set_target t s) = drv_position s;
  drv_keep_refines now s :
    abs_step_or_stutter (drv_position s, drv_target s)
                        (drv_position (drv_keep now s), drv_target (drv_keep now s))
}.

Lemma keep_abs_step_or_stutter {CS : CoilSequence} step_interval now m :
  abs_step_or_stutter (abs_motor m) (abs_motor (keep_target_pos step_interval now m)).
Proof.
  destruct (keep_cases step_interval now m) as [-> | (Hne & _ & ->)].
  - left. reflexivity.
  - right. apply advance_step, Hne.
Qed.

#[export] Instance motor_driver {CS : CoilSequence} (step_interval : Z) : StepperDriver Motor := {
  drv_set_target := set_target_pos;
  drv_keep := keep_target_pos step_interval;
  drv_position := current_position;
  drv_target := target_position;
  drv_set_target_target t s := eq_refl;
  drv_set_target_position t s := eq_refl;
  drv_keep_refines := keep_abs_step_or_stutter step_interval
}.
