(* ===== verification/Decoder.v ===== *)
(** * The frame decoder [bin_to_int_le]

    [src/esp32-simple-blinds.cpp], lines 20-24:
    [return (bin[0] << 24) | (bin[1] << 16) | (bin[2] << 8) | (bin[3]);]
    Each [uint8_t] is promoted to [int] before the shift; [bin[0] << 24]
    leaves the range of [int] when [bin[0] >= 128], and the result is the
    value modulo 2^32 read in two's complement ([to_int32]).  The payload
    is the buffer the WebSocket library passes to the callback, as a list
    of bytes; a read past its end is undefined behaviour, modelled as the
    fault [OutOfBoundsRead].

    The theorems: the bitwise code equals the arithmetic reading of the
    first four bytes, most significant first, in two's complement (so the
    name's "little-endian" is wrong); decoded values are [int]s; the
    encoder [int_to_bin] (what a client sends) and the decoder are inverse
    on [int] values and on 4-byte frames; a frame shorter than four bytes
    makes the code read past the payload. *)

From Stdlib Require Import ZArith Lia List.
From Stdlib Require Strings.Byte.
From S2P Require Import Prelude.
Import ListNotations.
Open Scope Z_scope.
Open Scope blinds_scope.

(** ** The code *)

(** [bin[i]]: the [i]-th byte of the payload, promoted to [int]. *)
Definition bin_at (bin : list Byte.byte) (i : nat) : result Z fault :=
  match nth_error bin i with
  | Some b => Ok (byte_to_Z b)
  | None => Err (OutOfBoundsRead i)
  end.

(** [x << n] on an [int] operand, with the result converted to [int]. *)
Definition shl_int (x n : Z) : Z := to_int32 (Z.shiftl x n).

Definition bin_to_int_le (bin : list Byte.byte) : result Z fault :=
  b0 <- bin_at bin 0 ;;
  b1 <- bin_at bin 1 ;;
  b2 <- bin_at bin 2 ;;
  b3 <- bin_at bin 3 ;;
  Ok (Z.lor (Z.lor (Z.lor (shl_int b0 24) (shl_int b1 16)) (shl_int b2 8)) b3).

(** ** The reference and the encoder *)

(** The spec's reading (section 4.3): the four bytes as a 32-bit two's
    complement number, [frame[0]] most significant. *)
Definition be32_value (b0 b1 b2 b3 : Byte.byte) : Z :=
  to_int32 (byte_to_Z b0 * 2 ^ 24 + byte_to_Z b1 * 2 ^ 16 + byte_to_Z b2 * 2 ^ 8 + byte_to_Z b3).

(** What a client sends for target [v]: its four bytes, most significant
    first (the byte order the decoder's arithmetic expects). *)
Definition int_to_bin (v : Z) : list Byte.byte :=
  [byte_of_Z (Z.shiftr v 24); byte_of_Z (Z.shiftr v 16); byte_of_Z (Z.shiftr v 8); byte_of_Z v].

(** ** Lemmas *)

Lemma shl_int_low x n :
  0 <= n -> 0 <= x -> x * 2 ^ n < 2 ^ 31 -> shl_int x n = x * 2 ^ n.
Proof.
  intros Hn Hx H. unfold shl_int. rewrite Z.shiftl_mul_pow2 by exact Hn.
  apply to_int32_id. split; [|exact H].
  assert (0 <= x * 2 ^ n) by (apply Z.mul_nonneg_nonneg; [exact Hx | apply Z.pow_nonneg; lia]).
  lia.
Qed.

(** The code on a payload of at least four bytes. *)
Lemma bin_to_int_le_bytes b0 b1 b2 b3 rest :
  bin_to_int_le (b0 :: b1 :: b2 :: b3 :: rest) =
  Ok (Z.lor (Z.lor (Z.lor (shl_int (byte_to_Z b0) 24) (shl_int (byte_to_Z b1) 16))
                   (shl_int (byte_to_Z b2) 8)) (byte_to_Z b3)).
Proof. reflexivity. Qed.

(** ** Theorems *)

(** The code on four bytes or more, for the theorems below. *)
Lemma bin_to_int_le_value b0 b1 b2 b3 rest :
  bin_to_int_le (b0 :: b1 :: b2 :: b3 :: rest) = Ok (be32_value b0 b1 b2 b3).
Proof.
  rewrite bin_to_int_le_bytes. unfold be32_value. f_equal. bytes_bounded.
  rewrite (shl_int_low (byte_to_Z b1)), (shl_int_low (byte_to_Z b2)) by lia.
  unfold shl_int at 1. rewrite Z.shiftl_mul_pow2 by lia.
  rewrite (lor_to_int32_low _ _ 24), (lor_to_int32_low _ _ 16), (lor_to_int32_low _ _ 8)
    by (Z.div_mod_to_equations; lia).
  reflexivity.
Qed.

(** C6: the code's shifts and [|] compute the spec's value: the first
    four bytes of the payload read as a 32-bit two's-complement number,
    the first byte most significant; further bytes are ignored. *)
Theorem bin_to_int_le_equiv b0 b1 b2 b3 rest :
  bin_to_int_le (b0 :: b1 :: b2 :: b3 :: rest) = Ok (be32_value b0 b1 b2 b3).
Proof. apply bin_to_int_le_value. Qed.

(** Decoded values are [int]s, for the clients of the decoder. *)
Lemma bin_to_int_le_in_int32 bin v :
  bin_to_int_le bin = Ok v -> in_int32 v = true.
Proof.
  intros H. destruct bin as [|b0 [|b1 [|b2 [|b3 rest]]]]; try discriminate H.
  rewrite bin_to_int_le_value in H. injection H as <-. apply to_int32_in_int32.
Qed.

(** C13: round trip: a client that sends an [int] target with [int_to_bin]
    has it decoded to the same value. *)
Theorem bin_to_int_le_int_to_bin v :
  in_int32 v = true -> bin_to_int_le (int_to_bin v) = Ok v.
Proof.
  intros Hv. apply in_int32_iff in Hv. unfold int_to_bin.
  rewrite bin_to_int_le_value. unfold be32_value. f_equal.
  rewrite !byte_to_Z_of_Z, !Z.shiftr_div_pow2 by lia.
  unfold to_int32. Z.div_mod_to_equations. lia.
Qed.

(** C14: the other round trip: re-encoding a decoded 4-byte frame gives back
    the frame. *)
Theorem int_to_bin_bin_to_int_le b0 b1 b2 b3 v :
  bin_to_int_le [b0; b1; b2; b3] = Ok v -> int_to_bin v = [b0; b1; b2; b3].
Proof.
  rewrite bin_to_int_le_value. intros H. injection H as <-.
  unfold int_to_bin, be32_value. bytes_bounded.
  rewrite !Z.shiftr_div_pow2 by lia.
  repeat f_equal; apply byte_to_Z_inj; rewrite byte_to_Z_of_Z;
    unfold to_int32; Z.div_mod_to_equations; lia.
Qed.

(** A short payload is read out of bounds, for the clients of the decoder. *)
Lemma bin_to_int_le_short bin :
  (length bin < 4)%nat -> bin_to_int_le bin = Err (OutOfBoundsRead (length bin)).
Proof.
  intros H. destruct bin as [|b0 [|b1 [|b2 [|b3 rest]]]]; simpl in *;
    [reflexivity | reflexivity | reflexivity | reflexivity | lia].
Qed.

(** C12: a binary frame shorter than four bytes makes the code read past
    the end of the payload, at the index of its length (the spec requires
    such frames to be rejected without reading them). *)
Theorem bin_to_int_le_short_frame bin :
  (length bin < 4)%nat -> bin_to_int_le bin = Err (OutOfBoundsRead (length bin)).
Proof. apply bin_to_int_le_short. Qed.

(** ** Examples and witnesses (the spec's section 8) *)

Example bin_to_int_le_five : bin_to_int_le [Byte.x00; Byte.x00; Byte.x00; Byte.x05] = Ok 5.
Proof. reflexivity. Qed.

Example bin_to_int_le_minus_five : bin_to_int_le [Byte.xff; Byte.xff; Byte.xff; Byte.xfb] = Ok (-5).
Proof. reflexivity. Qed.

(** The first byte is the most significant: the function is big-endian. *)
Example bin_to_int_le_msb_first : bin_to_int_le [Byte.x01; Byte.x00; Byte.x00; Byte.x00] = Ok (2 ^ 24).
Proof. reflexivity. Qed.

Lemma bin_to_int_le_int_to_bin_witness :
  in_int32 (-123456789) = true /\ bin_to_int_le (int_to_bin (-123456789)) = Ok (-123456789).
Proof.
  assert (H : in_int32 (-123456789) = true) by reflexivity.
  split; [exact H | exact (bin_to_int_le_int_to_bin _ H)].
Defined.

Lemma int_to_bin_bin_to_int_le_witness :
  bin_to_int_le [Byte.xff; Byte.xff; Byte.xff; Byte.xfb] = Ok (-5) /\
  int_to_bin (-5) = [Byte.xff; Byte.xff; Byte.xff; Byte.xfb].
Proof.
  assert (H : bin_to_int_le [Byte.xff; Byte.xff; Byte.xff; Byte.xfb] = Ok (-5)) by reflexivity.
  split; [exact H | exact (int_to_bin_bin_to_int_le _ _ _ _ _ H)].
Defined.

Lemma bin_to_int_le_short_frame_witness :
  (length [Byte.x00; Byte.x05] < 4)%nat /\
  bin_to_int_le [Byte.x00; Byte.x05] = Err (OutOfBoundsRead 2).
Proof.
  assert (H : (length [Byte.x00; Byte.x05] < 4)%nat) by (simpl; lia).
  split; [exact H | exact (bin_to_int_le_short_frame _ H)].
Defined.
