(* ===== verification/Ota.v ===== *)
(** * The OTA callbacks registered in [setup]

    [src/esp32-simple-blinds.cpp], lines 58-91: four lambdas given to
    [ArduinoOTA.onStart], [onEnd], [onProgress] and [onError].  They only
    write to the serial port, so each is modelled as the list of serial
    writes it makes ([serial_out]); [ArduinoOTA.handle()] (line 101)
    delivers a sequence of [ota_event]s, which [ota_handle] runs in order.

    The progress callback computes [progress / (total / 100)] on
    [unsigned int]: the division faults when [total < 100] (the ESP32
    raises an integer-divide-by-zero exception), and the printed
    percentage is not bounded by 100 when [total] is not a multiple of 100.
    Both are proved, with the exact bounds of the percentage. *)

From Stdlib Require Import ZArith Lia List String Ascii.
From S2P Require Import Prelude.
Import ListNotations.
Open Scope Z_scope.
Open Scope blinds_scope.

(** ** Data *)

(** One write to [Serial]: [println(s)] or [printf(fmt, args...)]. *)
Inductive serial_out : Type :=
| SPrintln (s : string)
| SPrintf (fmt : string) (args : list Z).

(** [ArduinoOTA.getCommand()] values. *)
Definition U_FLASH : Z := 0.
Definition U_SPIFFS : Z := 100.

(** [ota_error_t]. *)
Inductive ota_error_t : Type :=
| OTA_AUTH_ERROR
| OTA_BEGIN_ERROR
| OTA_CONNECT_ERROR
| OTA_RECEIVE_ERROR
| OTA_END_ERROR.

Definition ota_error_eq_dec (a b : ota_error_t) : {a = b} + {a <> b}.
Proof. decide equality. Defined.

(** The numeric value printed by [%u]. *)
Definition ota_error_code (e : ota_error_t) : Z :=
  match e with
  | OTA_AUTH_ERROR => 0
  | OTA_BEGIN_ERROR => 1
  | OTA_CONNECT_ERROR => 2
  | OTA_RECEIVE_ERROR => 3
  | OTA_END_ERROR => 4
  end.

(** What [ArduinoOTA.handle()] can call back. *)
Inductive ota_event : Type :=
| OtaStart (command : Z)
| OtaProgress (progress total : Z)
| OtaEnd
| OtaError (error : ota_error_t).

(** ** The callbacks *)

Definition newline : string := String (ascii_of_nat 10) EmptyString.
Definition carriage_return : string := String (ascii_of_nat 13) EmptyString.

(** [onStart]: lines 58-67. *)
Definition ota_on_start (command : Z) : list serial_out :=
  let type := if command =? U_FLASH then "sketch"%string else "filesystem"%string in
  [SPrintln ("Start updating " ++ type)%string].

(** [onEnd]: lines 68-70. *)
Definition ota_on_end : list serial_out := [SPrintln (newline ++ "End")%string].

(** The percentage the progress callback prints: [progress / (total / 100)]
    (line 72). *)
Definition progress_percent (progress total : Z) : Z := progress / (total / 100).

(** [onProgress]: lines 71-73, [unsigned int] division, faulting when the
    divisor [total / 100] is 0. *)
Definition ota_on_progress (progress total : Z) : result (list serial_out) fault :=
  let divisor := total / 100 in
  if divisor =? 0 then Err DivisionByZero
  else Ok [SPrintf ("Progress: %u%%" ++ carriage_return)%string [progress_percent progress total]].

(** [onError]: lines 74-91, the [if]-[else if] chain. *)
Definition ota_on_error (error : ota_error_t) : list serial_out :=
  SPrintf "Error[%u]: "%string [ota_error_code error] ::
  (if ota_error_eq_dec error OTA_AUTH_ERROR then [SPrintln "Auth Failed"%string]
   else if ota_error_eq_dec error OTA_BEGIN_ERROR then [SPrintln "Begin Failed"%string]
   else if ota_error_eq_dec error OTA_CONNECT_ERROR then [SPrintln "Connect Failed"%string]
   else if ota_error_eq_dec error OTA_RECEIVE_ERROR then [SPrintln "Receive Failed"%string]
   else if ota_error_eq_dec error OTA_END_ERROR then [SPrintln "End Failed"%string]
   else []).

Definition ota_callback (ev : ota_event) : result (list serial_out) fault :=
  match ev with
  | OtaStart c => Ok (ota_on_start c)
  | OtaProgress p t => ota_on_progress p t
  | OtaEnd => Ok ota_on_end
  | OtaError e => Ok (ota_on_error e)
  end.

(** [ArduinoOTA.handle()]: the callbacks of the events it delivers, in
    order; their serial output is appended to [log]. *)
Fixpoint ota_handle (evs : list ota_event) (log : list serial_out)
  : result (list serial_out) fault :=
  match evs with
  | [] => Ok log
  | ev :: evs' => out <- ota_callback ev ;; ota_handle evs' (log ++ out)
  end.

(** ** Theorems *)

(** C19: the progress callback divides by zero for an update image of
    fewer than 100 bytes: [total / 100] is 0. *)
Theorem ota_on_progress_div_by_zero progress total :
  0 <= total < 100 -> ota_on_progress progress total = Err DivisionByZero.
Proof.
  intros H. unfold ota_on_progress. rewrite Z.div_small by lia. reflexivity.
Qed.

(** C20: for an image of at least 100 bytes and a progress within it, the
    printed percentage is at least the true percentage (rounded down) and
    below 200; at the end of the transfer it is exactly
    [100 + (total mod 100) / (total / 100)], above 100 as soon as the
    remainder of [total] by 100 reaches [total / 100]. *)
Theorem progress_percent_bounds progress total :
  100 <= total -> 0 <= progress <= total ->
  (100 * progress / total <= progress_percent progress total) /\
  (progress_percent progress total < 200) /\
  (progress_percent total total = 100 + (total mod 100) / (total / 100)).
Proof.
  intros Ht Hp. unfold progress_percent.
  set (d := total / 100).
  assert (Hd : 1 <= d) by (unfold d; apply Z.div_le_lower_bound; lia).
  assert (Htot : total = 100 * d + total mod 100) by (unfold d; apply Z.div_mod; lia).
  pose proof (Z.mod_pos_bound total 100 ltac:(lia)) as Hr.
  split; [|split].
  - rewrite <- (Z.div_mul_cancel_l progress d 100) by lia.
    apply Z.div_le_compat_l; lia.
  - apply (Z.le_lt_trans _ (total / d)); [apply Z.div_le_mono; lia|].
    apply Z.div_lt_upper_bound; lia.
  - rewrite Htot at 1. rewrite Z.div_add_l by lia. reflexivity.
Qed.

(** ** Witnesses *)

Lemma ota_on_progress_div_by_zero_witness :
  0 <= 99 < 100 /\ ota_callback (OtaProgress 50 99) = Err DivisionByZero.
Proof.
  assert (H : 0 <= 99 < 100) by lia.
  split; [exact H | exact (ota_on_progress_div_by_zero 50 99 H)].
Defined.

(** A 199-byte image ends at 199%. *)
Lemma progress_percent_bounds_witness :
  (100 <= 199 /\ 0 <= 199 <= 199) /\ progress_percent 199 199 = 199.
Proof.
  assert (H1 : 100 <= 199) by lia. assert (H2 : 0 <= 199 <= 199) by lia.
  split; [split; assumption|].
  rewrite (proj2 (proj2 (progress_percent_bounds 199 199 H1 H2))). reflexivity.
Defined.
