(* ===== verification/Sketch.v ===== *)
(** * The sketch: [websocket_event], [setup] and [loop]

    [src/esp32-simple-blinds.cpp], lines 14-104, over any stepper driver
    given through the [Stepper.StepperDriver] interface:
    - [stepper_pins] is the constructor call of line 17;
    - [websocket_event] (lines 26-45) decodes a binary frame with
      [Decoder.bin_to_int_le] and sets the target; every other event type
      is ignored; [ws_loop] is [webSocket.loop()] running it on each event
      the server delivers;
    - [wifi_wait] is the loop of lines 55-57, on fuel; [setup] (lines
      47-97) configures the pins, waits for the association, and enables
      the OTA and WebSocket listeners;
    - [loop] (lines 99-104) runs [ArduinoOTA.handle()] ([Ota.ota_handle]),
      then [webSocket.loop()], then [keep_target_pos()], in that order.

    The theorems over the interface: a frame received in an iteration is
    the target of that iteration's motor advance; events of other types,
    and OTA events, never change the motor; a short binary frame or a
    small OTA image makes the iteration fault.  Over the concrete driver
    ([Stepper.motor_driver]): every iteration keeps the driver reachable,
    hence within its invariant, and a device that receives no further
    frame reaches its target. *)

From Stdlib Require Import ZArith Lia List.
From Stdlib Require Strings.Byte.
From S2P Require Import Prelude Coils Stepper Decoder Ota.
Import ListNotations.
Open Scope Z_scope.
Open Scope blinds_scope.

(** ** Globals *)

(** [Simple28BYJ48 stepper(12, 14, 27, 26)]: the pins [in1] to [in4]. *)
Definition stepper_pins : list Z := [12; 14; 27; 26].

(** [WStype_t] of the WebSockets library. *)
Inductive WStype_t : Type :=
| WStype_ERROR
| WStype_DISCONNECTED
| WStype_CONNECTED
| WStype_TEXT
| WStype_BIN
| WStype_FRAGMENT_TEXT_START
| WStype_FRAGMENT_BIN_START
| WStype_FRAGMENT
| WStype_FRAGMENT_FIN
| WStype_PING
| WStype_PONG.

(** The arguments of one callback: [(num, type, payload, length)]. *)
Record ws_event := mkWsEvent {
  ws_num : Z;
  ws_type : WStype_t;
  ws_payload : list Byte.byte;
  ws_length : Z
}.

(** [wl_status_t] of the Wi-Fi library. *)
Inductive wl_status_t : Type :=
| WL_NO_SHIELD
| WL_IDLE_STATUS
| WL_NO_SSID_AVAIL
| WL_SCAN_COMPLETED
| WL_CONNECTED
| WL_CONNECT_FAILED
| WL_CONNECTION_LOST
| WL_DISCONNECTED.

Definition wl_connected (s : wl_status_t) : bool :=
  match s with WL_CONNECTED => true | _ => false end.

Section Sketch.
Context {S : Type} {D : StepperDriver S}.

(** ** The WebSocket callback *)

Definition websocket_event (num : Z) (type : WStype_t) (payload : list Byte.byte)
           (length : Z) (stepper : S) : result S fault :=
  match type with
  | WStype_BIN => v <- bin_to_int_le payload ;; Ok (drv_set_target v stepper)
  | WStype_TEXT | WStype_ERROR | WStype_FRAGMENT_TEXT_START | WStype_FRAGMENT_BIN_START
  | WStype_FRAGMENT | WStype_FRAGMENT_FIN | WStype_DISCONNECTED | WStype_CONNECTED => Ok stepper
  | _ => Ok stepper
  end.

(** [webSocket.loop()]: the callback on each event delivered, in order. *)
Fixpoint ws_loop (evs : list ws_event) (stepper : S) : result S fault :=
  match evs with
  | [] => Ok stepper
  | e :: evs' =>
      s' <- websocket_event (ws_num e) (ws_type e) (ws_payload e) (ws_length e) stepper ;;
      ws_loop evs' s'
  end.

(** ** The device *)

Record Device := mkDevice {
  dev_stepper : S;
  dev_serial : list serial_out;
  dev_output_pins : list Z;
  dev_ota_started : bool;
  dev_ws_started : bool
}.

(** [while (WiFi.status() != WL_CONNECTED) delay(500);]: [status i] is
    the [i]-th reading; the result is the number of [delay(500)] calls
    made before the association, if it happens within the fuel. *)
Fixpoint wifi_wait (fuel : nat) (status : nat -> wl_status_t) (i : nat) : option nat :=
  match fuel with
  | O => None
  | Datatypes.S fuel' => if wl_connected (status i) then Some i else wifi_wait fuel' status (Datatypes.S i)
  end.

(** [setup()] with the driver as constructed: the four stepper pins are
    outputs, the Wi-Fi is associated, then the OTA and WebSocket
    listeners are started (the callbacks are the ones of this model). *)
Definition setup (fuel : nat) (status : nat -> wl_status_t) (stepper : S) : option Device :=
  match wifi_wait fuel status 0 with
  | None => None
  | Some _ => Some {| dev_stepper := stepper; dev_serial := [];
                      dev_output_pins := stepper_pins;
                      dev_ota_started := true; dev_ws_started := true |}
  end.

(** [loop()] at [micros()] = [now], with the OTA events and WebSocket
    events the two libraries deliver during this iteration. *)
Definition loop (now : Z) (ota_evs : list ota_event) (ws_evs : list ws_event) (d : Device)
  : result Device fault :=
  log <- ota_handle ota_evs (dev_serial d) ;;
  s <- ws_loop ws_evs (dev_stepper d) ;;
  Ok {| dev_stepper := drv_keep now s; dev_serial := log;
        dev_output_pins := dev_output_pins d;
        dev_ota_started := dev_ota_started d; dev_ws_started := dev_ws_started d |}.

(** A binary frame. *)
Definition bin_frame (payload : list Byte.byte) : ws_event :=
  mkWsEvent 0 WStype_BIN payload (Z.of_nat (List.length payload)).

(** An event that is not a binary frame. *)
Definition not_bin (e : ws_event) : bool :=
  match ws_type e with WStype_BIN => false | _ => true end.
End Sketch.

Arguments Device S : clear implicits.

(** ** Lemmas over the interface *)

Section SketchLemmas.
Context {S : Type} {D : StepperDriver S}.

Lemma websocket_event_not_bin e s :
  not_bin e = true -> websocket_event (ws_num e) (ws_type e) (ws_payload e) (ws_length e) s = Ok s.
Proof. unfold not_bin. destruct (ws_type e); simpl; congruence. Qed.

Lemma ws_loop_app evs1 evs2 s :
  ws_loop (evs1 ++ evs2) s = (s1 <- ws_loop evs1 s ;; ws_loop evs2 s1).
Proof.
  revert s. induction evs1 as [|e evs IH]; intros s; simpl; [reflexivity|].
  destruct (websocket_event _ _ _ _ s); simpl; [apply IH | reflexivity].
Qed.

Lemma ws_loop_not_bin evs s : forallb not_bin evs = true -> ws_loop evs s = Ok s.
Proof.
  revert s. induction evs as [|e evs IH]; intros s H; simpl in *; [reflexivity|].
  apply andb_prop in H as [He Hevs]. rewrite websocket_event_not_bin by exact He.
  apply IH, Hevs.
Qed.

(** Frames set targets; they never move the motor. *)
Lemma ws_loop_position evs s s' : ws_loop evs s = Ok s' -> drv_position s' = drv_position s.
Proof.
  revert s. induction evs as [|e evs IH]; intros s H; simpl in *; [congruence|].
  destruct (ws_type e) eqn:Et; simpl in H; try (apply IH in H; exact H).
  destruct (bin_to_int_le (ws_payload e)) as [v|]; simpl in H; [|discriminate].
  apply IH in H. rewrite H. apply drv_set_target_position.
Qed.

Lemma ws_loop_bin_frame payload v s :
  bin_to_int_le payload = Ok v -> ws_loop [bin_frame payload] s = Ok (drv_set_target v s).
Proof. intros H. simpl. rewrite H. reflexivity. Qed.

Lemma ota_handle_app evs1 evs2 log :
  ota_handle (evs1 ++ evs2) log = (l1 <- ota_handle evs1 log ;; ota_handle evs2 l1).
Proof.
  revert log. induction evs1 as [|e evs IH]; intros log; simpl; [reflexivity|].
  destruct (ota_callback e); simpl; [apply IH | reflexivity].
Qed.

Lemma loop_ok now ota ws d log s :
  ota_handle ota (dev_serial d) = Ok log -> ws_loop ws (dev_stepper d) = Ok s ->
  loop now ota ws d = Ok {| dev_stepper := drv_keep now s; dev_serial := log;
                            dev_output_pins := dev_output_pins d;
                            dev_ota_started := dev_ota_started d;
                            dev_ws_started := dev_ws_started d |}.
Proof. intros H1 H2. unfold loop. rewrite H1. simpl. rewrite H2. reflexivity. Qed.

(** [keep_target_pos] never changes the target. *)
Lemma drv_keep_target now s : drv_target (drv_keep now s) = drv_target s.
Proof.
  destruct (drv_keep_refines now s) as [E | Hs]; [injection E as _ E; exact E|].
  inversion Hs; reflexivity.
Qed.

(** An iteration with no binary frame is one [keep_target_pos] call. *)
Lemma loop_quiet now ota ws d log :
  ota_handle ota (dev_serial d) = Ok log -> forallb not_bin ws = true ->
  loop now ota ws d = Ok {| dev_stepper := drv_keep now (dev_stepper d); dev_serial := log;
                            dev_output_pins := dev_output_pins d;
                            dev_ota_started := dev_ota_started d;
                            dev_ws_started := dev_ws_started d |}.
Proof. intros H1 H2. apply loop_ok; [exact H1 | apply ws_loop_not_bin, H2]. Qed.

Lemma wifi_wait_from fuel status i k :
  (forall j, (i <= j < k)%nat -> wl_connected (status j) = false) ->
  wl_connected (status k) = true -> (i <= k)%nat -> (k - i < fuel)%nat ->
  wifi_wait fuel status i = Some k.
Proof.
  revert i. induction fuel as [|fuel IH]; intros i Hbefore Hk Hik Hfuel; [lia|]. simpl.
  destruct (Nat.eq_dec i k) as [-> | Hne]; [rewrite Hk; reflexivity|].
  rewrite Hbefore by lia. apply IH; [intros j Hj; apply Hbefore | | |]; lia || assumption.
Qed.
End SketchLemmas.

(** ** Theorems over the interface *)

Section SketchProps.
Context {S : Type} {D : StepperDriver S}.

(** C1: ordering within [loop]: a binary frame delivered in an iteration,
    after events that were processed without fault, is decoded and set as
    the target before that iteration's motor advance, which then stutters
    or takes one step from the previous position toward the new target. *)
Theorem loop_frame_visible now ota evs payload v d log s :
  ota_handle ota (dev_serial d) = Ok log -> ws_loop evs (dev_stepper d) = Ok s ->
  bin_to_int_le payload = Ok v ->
  exists d', loop now ota (evs ++ [bin_frame payload]) d = Ok d' /\
    drv_target (dev_stepper d') = v /\
    abs_step_or_stutter (drv_position (dev_stepper d), v)
                        (drv_position (dev_stepper d'), drv_target (dev_stepper d')).
Proof.
  intros Hota Hws Hv.
  assert (Hall : ws_loop (evs ++ [bin_frame payload]) (dev_stepper d) = Ok (drv_set_target v s))
    by (rewrite ws_loop_app, Hws; apply ws_loop_bin_frame, Hv).
  eexists. split; [apply (loop_ok _ _ _ _ _ _ Hota Hall)|]. simpl.
  pose proof (drv_keep_refines now (drv_set_target v s)) as Hr.
  rewrite drv_set_target_target, drv_set_target_position in Hr.
  rewrite (ws_loop_position _ _ _ Hws) in Hr.
  destruct Hr as [Heq | Hstep].
  - injection Heq as Hp Ht. rewrite Ht. split; [reflexivity|]. left. congruence.
  - split; [inversion Hstep; congruence | right; exact Hstep].
Qed.

(** C17: neither the OTA events nor WebSocket events other than binary
    frames change the motor: when the OTA callbacks do not fault, the
    iteration is exactly one [keep_target_pos] call. *)
Theorem loop_ignores_ota_and_non_bin now ota ws d log :
  ota_handle ota (dev_serial d) = Ok log -> forallb not_bin ws = true ->
  exists d', loop now ota ws d = Ok d' /\ dev_stepper d' = drv_keep now (dev_stepper d) /\
             dev_serial d' = log.
Proof.
  intros Hota Hws. eexists. split; [apply (loop_quiet _ _ _ _ _ Hota Hws)|].
  split; reflexivity.
Qed.

(** C18: a binary frame of fewer than four bytes makes the iteration read
    past the payload: the iteration faults, whatever follows it. *)
Theorem loop_short_frame_fault now ota evs payload rest d log s :
  ota_handle ota (dev_serial d) = Ok log -> ws_loop evs (dev_stepper d) = Ok s ->
  (List.length payload < 4)%nat ->
  loop now ota (evs ++ bin_frame payload :: rest) d = Err (OutOfBoundsRead (List.length payload)).
Proof.
  intros Hota Hws Hlen. unfold loop. rewrite Hota. simpl.
  rewrite ws_loop_app, Hws. simpl. rewrite bin_to_int_le_short by exact Hlen. reflexivity.
Qed.

(** C21: a progress callback for an image under 100 bytes faults the
    iteration before the WebSocket server is polled. *)
Theorem loop_ota_progress_fault now pre progress total post ws d log :
  ota_handle pre (dev_serial d) = Ok log -> 0 <= total < 100 ->
  loop now (pre ++ OtaProgress progress total :: post) ws d = Err DivisionByZero.
Proof.
  intros Hpre Ht. unfold loop. rewrite ota_handle_app, Hpre. simpl.
  unfold ota_on_progress. rewrite Z.div_small by lia. reflexivity.
Qed.

(** C11: the Wi-Fi wait of [setup] returns after exactly [k] delays when
    the first connected reading is the [k]-th and the fuel covers it; a
    status that never connects makes it never return, whatever the fuel. *)
Theorem wifi_wait_spec fuel status k :
  ((forall j, (j < k)%nat -> wl_connected (status j) = false) ->
   wl_connected (status k) = true -> (k < fuel)%nat -> wifi_wait fuel status 0 = Some k) /\
  ((forall j, wl_connected (status j) = false) -> wifi_wait fuel status 0 = None).
Proof.
  split.
  - intros Hbefore Hk Hfuel. apply wifi_wait_from; [intros j Hj; apply Hbefore | | |]; lia || assumption.
  - intros Hnever. generalize 0%nat. induction fuel as [|fuel IH]; intros i; simpl; [reflexivity|].
    rewrite Hnever. apply IH.
Qed.
(** C15: a binary frame longer than four bytes is not rejected (the spec
    requires it to be): the iteration is the one the frame of its first four
    bytes gives, and sets the target to their two's-complement value, most
    significant byte first. *)
Theorem loop_long_frame_accepted now ota b0 b1 b2 b3 rest d log :
  ota_handle ota (dev_serial d) = Ok log ->
  exists d', loop now ota [bin_frame (b0 :: b1 :: b2 :: b3 :: rest)] d = Ok d' /\
    loop now ota [bin_frame [b0; b1; b2; b3]] d = Ok d' /\
    drv_target (dev_stepper d') = be32_value b0 b1 b2 b3.
Proof.
  intros Hota.
  set (s := drv_set_target (be32_value b0 b1 b2 b3) (dev_stepper d)).
  eexists. split; [|split].
  - apply (loop_ok _ _ _ _ _ s Hota), ws_loop_bin_frame, bin_to_int_le_value.
  - apply (loop_ok _ _ _ _ _ s Hota), ws_loop_bin_frame, bin_to_int_le_value.
  - simpl. rewrite drv_keep_target. apply drv_set_target_target.
Qed.
End SketchProps.

(** ** The sketch with the concrete driver *)

Section Concrete.
Context {CS : CoilSequence}.
Variable step_interval : Z.

Local Instance drv : StepperDriver Motor := motor_driver step_interval.

(** Iterations in which no OTA or WebSocket event arrives, at the given
    [micros()] readings. *)
Fixpoint idle_loops (ticks : list Z) (d : Device Motor) : result (Device Motor) fault :=
  match ticks with
  | [] => Ok d
  | t :: ts => d' <- loop t [] [] d ;; idle_loops ts d'
  end.

Lemma ws_loop_reachable evs m m' :
  reachable step_interval m -> ws_loop evs m = Ok m' -> reachable step_interval m'.
Proof.
  revert m. induction evs as [|e evs IH]; intros m Hm H; simpl in H; [congruence|].
  destruct (ws_type e); simpl in H; try (eapply IH; eassumption).
  destruct (bin_to_int_le (ws_payload e)) as [v|] eqn:Hv; simpl in H; [|discriminate].
  apply (IH _ (reach_set step_interval m v Hm (bin_to_int_le_in_int32 _ _ Hv)) H).
Qed.

Lemma idle_loops_run ticks d :
  idle_loops ticks d =
  Ok {| dev_stepper := run step_interval ticks (dev_stepper d); dev_serial := dev_serial d;
        dev_output_pins := dev_output_pins d; dev_ota_started := dev_ota_started d;
        dev_ws_started := dev_ws_started d |}.
Proof.
  revert d. induction ticks as [|t ts IH]; intros [s log pins o w]; simpl; [reflexivity|].
  apply IH.
Qed.

(** C3: system-level safety: from a reachable driver state, every
    iteration of [loop] that does not fault leaves the driver reachable,
    so positions and targets stay within [int], the phase within the
    table and the coils on the phase's pattern. *)
Theorem loop_preserves_invariant now ota ws d d' :
  reachable step_interval (dev_stepper d) -> loop now ota ws d = Ok d' ->
  reachable step_interval (dev_stepper d') /\ motor_inv (dev_stepper d').
Proof.
  intros Hr H. unfold loop in H.
  destruct (ota_handle ota (dev_serial d)) as [log|]; simpl in H; [|discriminate].
  destruct (ws_loop ws (dev_stepper d)) as [s|] eqn:Hws; simpl in H; [|discriminate].
  injection H as <-. simpl.
  assert (Hk : reachable step_interval (keep_target_pos step_interval now s))
    by (apply reach_keep, (ws_loop_reachable _ _ _ Hr Hws)).
  split; [exact Hk | apply (motor_inv_of_reachable step_interval _ Hk)].
Qed.

(** C2: end to end: a device whose last frame set a target, and which
    then runs idle iterations one step interval apart, at least as many
    as the distance to the target, returns from all of them with the
    motor exactly at the target. *)
Theorem idle_loops_reach_target ticks d :
  due_from step_interval (last_step_time (dev_stepper d)) ticks = true ->
  distance (dev_stepper d) <= Z.of_nat (List.length ticks) ->
  exists d', idle_loops ticks d = Ok d' /\
    current_position (dev_stepper d') = target_position (dev_stepper d).
Proof.
  intros Hdue Hlen. eexists. split; [apply idle_loops_run|].
  apply run_converges; assumption.
Qed.
(** C4: refinement at the level of the program: an iteration of [loop] in
    which no binary frame arrives (and the OTA callbacks do not fault)
    moves the motor one step toward its target, recording the time, exactly
    when it is off target and the step interval has elapsed since the last
    step, and otherwise leaves the motor state unchanged. *)
Theorem loop_refines now ota ws d log :
  ota_handle ota (dev_serial d) = Ok log -> forallb not_bin ws = true ->
  exists d', loop now ota ws d = Ok d' /\
  (current_position (dev_stepper d) <> target_position (dev_stepper d) /\
   step_interval <= u32_sub now (last_step_time (dev_stepper d)) ->
   abs_step (abs_motor (dev_stepper d)) (abs_motor (dev_stepper d')) /\
   last_step_time (dev_stepper d') = now) /\
  (current_position (dev_stepper d) = target_position (dev_stepper d) \/
   u32_sub now (last_step_time (dev_stepper d)) < step_interval ->
   dev_stepper d' = dev_stepper d).
Proof.
  intros Hota Hws. eexists. split; [apply (loop_quiet _ _ _ _ _ Hota Hws)|].
  apply keep_target_pos_refines.
Qed.

(** C10: redirection: a frame received mid-move sends the step of the same
    iteration toward the new target, without reaching the old one first. *)
Theorem loop_frame_redirects now ota payload v d log :
  ota_handle ota (dev_serial d) = Ok log -> bin_to_int_le payload = Ok v ->
  current_position (dev_stepper d) <> v ->
  step_interval <= u32_sub now (last_step_time (dev_stepper d)) ->
  exists d', loop now ota [bin_frame payload] d = Ok d' /\
    target_position (dev_stepper d') = v /\
    current_position (dev_stepper d') =
    current_position (dev_stepper d) + Z.sgn (v - current_position (dev_stepper d)).
Proof.
  intros Hota Hv Hne Hdue. eexists.
  split; [apply (loop_ok _ _ _ _ _ _ Hota (ws_loop_bin_frame _ _ _ Hv))|].
  apply set_target_redirects; assumption.
Qed.

(** C8: the idempotent hold: once the motor is at its target, idle
    iterations at any times leave the whole device unchanged. *)
Theorem idle_loops_hold ticks d :
  current_position (dev_stepper d) = target_position (dev_stepper d) ->
  idle_loops ticks d = Ok d.
Proof.
  intros H. rewrite idle_loops_run, run_at_target by exact H. destruct d. reflexivity.
Qed.

(** C5: progress without overshoot: while the number of idle iterations,
    one step interval apart, does not exceed the distance to the target,
    each one brings the motor exactly one step closer. *)
Theorem idle_loops_progress ticks d :
  due_from step_interval (last_step_time (dev_stepper d)) ticks = true ->
  Z.of_nat (List.length ticks) <= distance (dev_stepper d) ->
  exists d', idle_loops ticks d = Ok d' /\
    distance (dev_stepper d') = distance (dev_stepper d) - Z.of_nat (List.length ticks) /\
    target_position (dev_stepper d') = target_position (dev_stepper d).
Proof.
  intros Hdue Hlen. eexists. split; [apply idle_loops_run|]. apply run_progress; assumption.
Qed.

(** C9: after any number of idle iterations the phase is the initial phase
    plus the net number of steps taken, modulo the number of phases, in
    both directions. *)
Theorem idle_loops_phase ticks d :
  0 <= phase_index (dev_stepper d) < n_phases ->
  exists d', idle_loops ticks d = Ok d' /\
    phase_index (dev_stepper d') =
    (phase_index (dev_stepper d) +
     (current_position (dev_stepper d') - current_position (dev_stepper d))) mod n_phases.
Proof. intros Hph. eexists. split; [apply idle_loops_run|]. apply run_phase, Hph. Qed.

(** C16: positioning in real time across the wrap-around of [micros()]:
    idle iterations at real times (not wrapped) at least one interval and
    less than 2^32 microseconds apart, as many as the distance, bring the
    motor to its target although the device only sees the times modulo
    2^32. *)
Theorem idle_loops_real_time last ticks d :
  0 <= step_interval -> spaced step_interval last ticks = true ->
  last_step_time (dev_stepper d) = last mod 2 ^ 32 ->
  distance (dev_stepper d) <= Z.of_nat (List.length ticks) ->
  exists d', idle_loops (map (fun t => t mod 2 ^ 32) ticks) d = Ok d' /\
    current_position (dev_stepper d') = target_position (dev_stepper d).
Proof.
  intros Hpos Hsp Hlast Hlen. eexists. split; [apply idle_loops_run|].
  apply run_converges; [rewrite Hlast; apply due_from_real_time; assumption|].
  rewrite length_map. exact Hlen.
Qed.
(** C7: every iteration that steps drives the coils: the phase moves by the
    direction of the step (with wrap-around), and the coil lines carry the
    pattern of the new phase, which energizes one line or two adjacent
    lines. *)
Theorem loop_step_drives_coils now ota ws d log :
  ota_handle ota (dev_serial d) = Ok log -> forallb not_bin ws = true ->
  current_position (dev_stepper d) <> target_position (dev_stepper d) ->
  step_interval <= u32_sub now (last_step_time (dev_stepper d)) ->
  exists d', loop now ota ws d = Ok d' /\
    phase_index (dev_stepper d') =
    (phase_index (dev_stepper d) + step_direction (dev_stepper d)) mod n_phases /\
    coils (dev_stepper d') = pattern (phase_index (dev_stepper d')) /\
    valid_pattern (coils (dev_stepper d')) = true.
Proof.
  intros Hota Hws Hne Hdue. eexists. split; [apply (loop_quiet _ _ _ _ _ Hota Hws)|].
  simpl. rewrite keep_due by assumption. simpl.
  split; [reflexivity|]. split; [reflexivity|]. apply pattern_valid, phase_mod_range.
Qed.

End Concrete.

(** ** Witnesses: the half-step driver with a 2 ms step interval *)

Definition demo_device : Device Motor :=
  {| dev_stepper := @init_motor; dev_serial := []; dev_output_pins := stepper_pins;
     dev_ota_started := true; dev_ws_started := true |}.

Definition five_frame : list Byte.byte := [Byte.x00; Byte.x00; Byte.x00; Byte.x05].

Lemma loop_frame_visible_witness :
  ota_handle [OtaStart U_FLASH] (dev_serial demo_device) = Ok (ota_on_start U_FLASH) /\
  exists d', @loop Motor (@drv half_step 2000) 3000 [OtaStart U_FLASH] ([] ++ [bin_frame five_frame])
                   demo_device = Ok d' /\
    target_position (dev_stepper d') = 5.
Proof.
  assert (H1 : ota_handle [OtaStart U_FLASH] (dev_serial demo_device) = Ok (ota_on_start U_FLASH))
    by reflexivity.
  assert (H2 : @ws_loop Motor (@drv half_step 2000) [] (dev_stepper demo_device) = Ok (@init_motor))
    by reflexivity.
  assert (H3 : bin_to_int_le five_frame = Ok 5) by reflexivity.
  split; [exact H1|].
  destruct (@loop_frame_visible Motor (@drv half_step 2000) 3000 _ _ _ _ _ _ _ H1 H2 H3)
    as (d' & Hd' & Ht & _).
  exists d'. split; [exact Hd' | exact Ht].
Defined.

Lemma loop_ignores_ota_and_non_bin_witness :
  forallb not_bin [mkWsEvent 0 WStype_TEXT five_frame 4; mkWsEvent 0 WStype_PING [] 0] = true /\
  exists d', @loop Motor (@drv half_step 2000) 3000 [OtaEnd]
                   [mkWsEvent 0 WStype_TEXT five_frame 4; mkWsEvent 0 WStype_PING [] 0] demo_device = Ok d'
             /\ dev_stepper d' = @init_motor.
Proof.
  assert (H1 : ota_handle [OtaEnd] (dev_serial demo_device) = Ok ota_on_end) by reflexivity.
  assert (H2 : forallb not_bin [mkWsEvent 0 WStype_TEXT five_frame 4; mkWsEvent 0 WStype_PING [] 0]
               = true) by reflexivity.
  split; [exact H2|].
  destruct (@loop_ignores_ota_and_non_bin Motor (@drv half_step 2000) 3000 _ _ _ _ H1 H2)
    as (d' & Hd' & Hs & _).
  exists d'. split; [exact Hd'| rewrite Hs; reflexivity].
Defined.

Lemma loop_short_frame_fault_witness :
  (List.length [Byte.x00; Byte.x05] < 4)%nat /\
  @loop Motor (@drv half_step 2000) 3000 [] ([] ++ [bin_frame [Byte.x00; Byte.x05]; bin_frame five_frame])
        demo_device = Err (OutOfBoundsRead 2).
Proof.
  assert (H : (List.length [Byte.x00; Byte.x05] < 4)%nat) by (simpl; lia).
  split; [exact H|].
  exact (@loop_short_frame_fault Motor (@drv half_step 2000) 3000 [] [] _ [bin_frame five_frame]
           demo_device [] (@init_motor) eq_refl eq_refl H).
Defined.

Lemma loop_ota_progress_fault_witness :
  0 <= 64 < 100 /\
  @loop Motor (@drv half_step 2000) 3000 ([OtaStart U_FLASH] ++ OtaProgress 10 64 :: [OtaEnd])
        [bin_frame five_frame] demo_device = Err DivisionByZero.
Proof.
  assert (H : 0 <= 64 < 100) by lia. split; [exact H|].
  exact (@loop_ota_progress_fault Motor (@drv half_step 2000) 3000 [OtaStart U_FLASH] 10 64
           [OtaEnd] [bin_frame five_frame] demo_device (ota_on_start U_FLASH) eq_refl H).
Defined.

(** Connected at the third reading: two delays. *)
Definition demo_status (i : nat) : wl_status_t :=
  match i with 0%nat => WL_IDLE_STATUS | 1%nat => WL_DISCONNECTED | _ => WL_CONNECTED end.

Lemma wifi_wait_spec_witness :
  (forall j, (j < 2)%nat -> wl_connected (demo_status j) = false) /\
  wifi_wait 10 demo_status 0 = Some 2%nat /\ wifi_wait 10 (fun _ => WL_DISCONNECTED) 0 = None.
Proof.
  assert (H : forall j, (j < 2)%nat -> wl_connected (demo_status j) = false).
  { intros [|[|j]] Hj; [reflexivity | reflexivity | lia]. }
  split; [exact H|]. split.
  - apply (proj1 (@wifi_wait_spec 10 demo_status 2%nat) H eq_refl). lia.
  - apply (proj2 (@wifi_wait_spec 10 (fun _ => WL_DISCONNECTED) 0%nat)). reflexivity.
Defined.

Lemma loop_preserves_invariant_witness :
  @reachable half_step 2000 (dev_stepper demo_device) /\
  exists d', @loop Motor (@drv half_step 2000) 3000 [] [bin_frame five_frame] demo_device = Ok d' /\
             @motor_inv half_step (dev_stepper d').
Proof.
  assert (Hr : @reachable half_step 2000 (dev_stepper demo_device)) by apply reach_init.
  split; [exact Hr|].
  destruct (@loop Motor (@drv half_step 2000) 3000 [] [bin_frame five_frame] demo_device)
    as [d'|e] eqn:E; [|discriminate E].
  exists d'. split; [reflexivity|].
  exact (proj2 (@loop_preserves_invariant half_step 2000 _ _ _ _ _ Hr E)).
Defined.

Lemma idle_loops_reach_target_witness :
  let d := {| dev_stepper := mkMotor 0 3 0 0 0; dev_serial := []; dev_output_pins := stepper_pins;
              dev_ota_started := true; dev_ws_started := true |} in
  due_from 2000 (last_step_time (dev_stepper d)) [2000; 4000; 6000; 8000] = true /\
  exists d', @idle_loops half_step 2000 [2000; 4000; 6000; 8000] d = Ok d' /\
             current_position (dev_stepper d') = 3.
Proof.
  intros d.
  assert (H1 : due_from 2000 (last_step_time (dev_stepper d)) [2000; 4000; 6000; 8000] = true)
    by reflexivity.
  assert (H2 : distance (dev_stepper d) <= Z.of_nat (List.length [2000; 4000; 6000; 8000]))
    by (vm_compute; discriminate).
  split; [exact H1 | exact (@idle_loops_reach_target half_step 2000 _ d H1 H2)].
Defined.

(** A device in the middle of a move: at step 2, target 5, phase 3, last
    step at 1000 microseconds. *)
Definition moving_device : Device Motor :=
  {| dev_stepper := mkMotor 2 5 3 1000 (@pattern half_step 3); dev_serial := [];
     dev_output_pins := stepper_pins; dev_ota_started := true; dev_ws_started := true |}.

Lemma loop_refines_witness :
  ota_handle [] (dev_serial moving_device) = Ok [] /\
  exists d', @loop Motor (@drv half_step 2000) 4000 [] [] moving_device = Ok d' /\
             abs_step (abs_motor (dev_stepper moving_device)) (abs_motor (dev_stepper d')).
Proof.
  assert (H1 : ota_handle [] (dev_serial moving_device) = Ok []) by reflexivity.
  assert (H2 : forallb not_bin [] = true) by reflexivity.
  assert (H3 : current_position (dev_stepper moving_device) <> target_position (dev_stepper moving_device)
               /\ 2000 <= u32_sub 4000 (last_step_time (dev_stepper moving_device)))
    by (vm_compute; split; discriminate).
  split; [exact H1|].
  destruct (@loop_refines half_step 2000 4000 [] [] moving_device [] H1 H2) as (d' & Hd' & Hstep & _).
  exists d'. split; [exact Hd' | exact (proj1 (Hstep H3))].
Defined.

Lemma loop_frame_redirects_witness :
  bin_to_int_le [Byte.xff; Byte.xff; Byte.xff; Byte.xf9] = Ok (-7) /\
  exists d', @loop Motor (@drv half_step 2000) 4000 [] [bin_frame [Byte.xff; Byte.xff; Byte.xff; Byte.xf9]]
                   moving_device = Ok d' /\ current_position (dev_stepper d') = 1.
Proof.
  assert (Hv : bin_to_int_le [Byte.xff; Byte.xff; Byte.xff; Byte.xf9] = Ok (-7)) by reflexivity.
  assert (Hne : current_position (dev_stepper moving_device) <> -7) by discriminate.
  assert (Hdue : 2000 <= u32_sub 4000 (last_step_time (dev_stepper moving_device)))
    by (vm_compute; discriminate).
  split; [exact Hv|].
  destruct (@loop_frame_redirects half_step 2000 4000 [] _ (-7) moving_device [] eq_refl Hv Hne Hdue)
    as (d' & Hd' & _ & Hc).
  exists d'. split; [exact Hd' | rewrite Hc; reflexivity].
Defined.

Lemma idle_loops_hold_witness :
  let d := {| dev_stepper := mkMotor 4 4 6 0 (@pattern half_step 6); dev_serial := [];
              dev_output_pins := stepper_pins; dev_ota_started := true; dev_ws_started := true |} in
  current_position (dev_stepper d) = target_position (dev_stepper d) /\
  @idle_loops half_step 2000 [5000; 9000; 10] d = Ok d.
Proof.
  intros d. assert (H : current_position (dev_stepper d) = target_position (dev_stepper d))
    by reflexivity.
  split; [exact H | exact (@idle_loops_hold half_step 2000 _ d H)].
Defined.

Lemma idle_loops_progress_witness :
  due_from 2000 (last_step_time (dev_stepper moving_device)) [3000; 5000] = true /\
  exists d', @idle_loops half_step 2000 [3000; 5000] moving_device = Ok d' /\
             distance (dev_stepper d') = 1.
Proof.
  assert (H1 : due_from 2000 (last_step_time (dev_stepper moving_device)) [3000; 5000] = true)
    by reflexivity.
  assert (H2 : Z.of_nat (List.length [3000; 5000]) <= distance (dev_stepper moving_device))
    by (vm_compute; discriminate).
  split; [exact H1|].
  destruct (@idle_loops_progress half_step 2000 _ moving_device H1 H2) as (d' & Hd' & Hdist & _).
  exists d'. split; [exact Hd' | rewrite Hdist; reflexivity].
Defined.

Lemma idle_loops_phase_witness :
  let d := {| dev_stepper := mkMotor 0 (-3) 1 0 (@pattern half_step 1); dev_serial := [];
              dev_output_pins := stepper_pins; dev_ota_started := true; dev_ws_started := true |} in
  (0 <= phase_index (dev_stepper d) < @n_phases half_step) /\
  exists d', @idle_loops half_step 2000 [2000; 4000; 6000] d = Ok d' /\
             phase_index (dev_stepper d') = 6.
Proof.
  intros d. assert (H : 0 <= phase_index (dev_stepper d) < @n_phases half_step) by (cbn; lia).
  split; [exact H|].
  destruct (@idle_loops_phase half_step 2000 [2000; 4000; 6000] d H) as (d' & Hd' & Hph).
  exists d'. split; [exact Hd'|]. rewrite Hph.
  injection Hd' as <-. vm_compute. reflexivity.
Defined.

(** Steps across the wrap of the clock: the last step at 2^32 - 3000 in real
    time, then ticks at 2^32 - 1000, 2^32 + 1500 and 2^32 + 4000. *)
Lemma idle_loops_real_time_witness :
  let d := {| dev_stepper := mkMotor 0 3 0 (2 ^ 32 - 3000) 0; dev_serial := [];
              dev_output_pins := stepper_pins; dev_ota_started := true; dev_ws_started := true |} in
  spaced 2000 (2 ^ 32 - 3000) [2 ^ 32 - 1000; 2 ^ 32 + 1500; 2 ^ 32 + 4000] = true /\
  exists d', @idle_loops half_step 2000 [4294966296; 1500; 4000] d = Ok d' /\
             current_position (dev_stepper d') = 3.
Proof.
  intros d.
  assert (Hsp : spaced 2000 (2 ^ 32 - 3000) [2 ^ 32 - 1000; 2 ^ 32 + 1500; 2 ^ 32 + 4000] = true)
    by reflexivity.
  assert (Hl : last_step_time (dev_stepper d) = (2 ^ 32 - 3000) mod 2 ^ 32) by reflexivity.
  assert (Hd : distance (dev_stepper d) <= Z.of_nat (List.length [2 ^ 32 - 1000; 2 ^ 32 + 1500; 2 ^ 32 + 4000]))
    by (vm_compute; discriminate).
  split; [exact Hsp|].
  exact (@idle_loops_real_time half_step 2000 _ _ d ltac:(lia) Hsp Hl Hd).
Defined.

Lemma loop_step_drives_coils_witness :
  current_position (dev_stepper moving_device) <> target_position (dev_stepper moving_device) /\
  exists d', @loop Motor (@drv half_step 2000) 4000 [] [] moving_device = Ok d' /\
             coils (dev_stepper d') = @pattern half_step (phase_index (dev_stepper d')) /\
             valid_pattern (coils (dev_stepper d')) = true.
Proof.
  assert (Hne : current_position (dev_stepper moving_device) <>
                target_position (dev_stepper moving_device)) by discriminate.
  assert (Hdue : 2000 <= u32_sub 4000 (last_step_time (dev_stepper moving_device)))
    by (vm_compute; discriminate).
  split; [exact Hne|].
  destruct (@loop_step_drives_coils half_step 2000 4000 [] [] moving_device [] eq_refl eq_refl Hne Hdue)
    as (d' & Hd' & _ & Hc & Hv).
  exists d'. split; [exact Hd'|]. split; [exact Hc | exact Hv].
Defined.

(** A five-byte frame [00 00 00 05 07] sets the target to 5. *)
Lemma loop_long_frame_accepted_witness :
  ota_handle [] (dev_serial demo_device) = Ok [] /\
  exists d', @loop Motor (@drv half_step 2000) 3000 []
                   [bin_frame [Byte.x00; Byte.x00; Byte.x00; Byte.x05; Byte.x07]] demo_device = Ok d' /\
             target_position (dev_stepper d') = 5.
Proof.
  assert (H : ota_handle [] (dev_serial demo_device) = Ok []) by reflexivity.
  split; [exact H|].
  destruct (@loop_long_frame_accepted Motor (@drv half_step 2000) 3000 [] Byte.x00 Byte.x00 Byte.x00
              Byte.x05 [Byte.x07] demo_device [] H) as (d' & Hd' & _ & Ht).
  exists d'. split; [exact Hd' | exact Ht].
Defined.
